(** * rendezvous-hasher.h: a shallow embedding and its verified properties

    The header implements Highest-Random-Weight hashing over a singly
    linked list of node identifiers.  The embedding below follows
    [src/rendezvous-hasher.h] function by function:

    - [unsigned int] values are integers of [Z] in [0, 2^32), every
      arithmetic result being reduced with [wrap];
    - a pointer is an [option]: [None] is [NULL], [Some v] a valid
      pointer whose pointee currently holds [v];
    - the chain [RendezvousHasherNodeList] is the list of its [id]
      fields in [next] order, [NULL] being the empty list;
    - every function returns its [int] status together with the new
      contents of each pointee it was handed. *)

From Stdlib Require Import ZArith List Bool Lia.
Import ListNotations.
Local Open Scope Z_scope.

(** ** Types and constants *)

(** Width of [unsigned int] (the default [RENDEZVOUS_HASHER_ID_T] and
    [RENDEZVOUS_HASHER_HASH_T]). *)
Definition UINT_WIDTH : Z := 32.

(** Reduction modulo [2^32]: what C does to every [unsigned int] result. *)
Definition wrap (x : Z) : Z := x mod 2 ^ UINT_WIDTH.

Definition RendezvousHasherId : Type := Z.
Definition RendezvousHasherHash : Type := Z.

Definition RENDEZVOUS_HASHER_OK : Z := 0.
Definition RENDEZVOUS_HASHER_ERROR_IS_NULL : Z := -1.
Definition RENDEZVOUS_HASHER_ERROR_ARGUMENT_NULL : Z := -2.

(** [struct RendezvousHasherNodeList { next; id }], seen from its head. *)
Definition RendezvousHasherNodeList : Type := list RendezvousHasherId.

(** [typedef struct { RendezvousHasherNodeList *nodes; } RendezvousHasher]. *)
Record RendezvousHasher : Type := mkRendezvousHasher {
  nodes : RendezvousHasherNodeList
}.

(** A possibly null pointer to a [T]. *)
Definition ptr (T : Type) : Type := option T.

(** ** The built-in hash *)

(** [rendezvous_hasher_hash_uint32], lines 324-333. *)
Definition rendezvous_hasher_hash_uint32 (a : Z) : Z :=
  let a := Z.lxor (Z.lxor a 61) (Z.shiftr a 16) in
  let a := wrap (a + wrap (Z.shiftl a 3)) in
  let a := Z.lxor a (Z.shiftr a 4) in
  let a := wrap (a * 0x27d4eb2d) in
  let a := Z.lxor a (Z.shiftr a 15) in
  a.

(** ** Registry operations *)

(** [rendezvous_init], lines 218-223. *)
Definition rendezvous_init (rh : ptr RendezvousHasher)
  : Z * ptr RendezvousHasher :=
  match rh with
  | None => (RENDEZVOUS_HASHER_ERROR_IS_NULL, rh)
  | Some _ => (RENDEZVOUS_HASHER_OK, Some (mkRendezvousHasher []))
  end.

(** The [while (it)] loop of [rendezvous_free]: every cell is released
    in turn and the cursor ends on [NULL]. *)
Fixpoint free_loop (it : RendezvousHasherNodeList) : RendezvousHasherNodeList :=
  match it with
  | [] => it
  | _ :: next => free_loop next
  end.

(** [rendezvous_free], lines 225-239. *)
Definition rendezvous_free (rh : ptr RendezvousHasher)
  : Z * ptr RendezvousHasher :=
  match rh with
  | None => (RENDEZVOUS_HASHER_ERROR_IS_NULL, rh)
  | Some r =>
      let _it := free_loop (nodes r) in
      (RENDEZVOUS_HASHER_OK, Some (mkRendezvousHasher []))
  end.

(** [rendezvous_add_node], lines 241-254.  The allocator is taken to
    succeed, as the code takes it. *)
Definition rendezvous_add_node (rh : ptr RendezvousHasher)
    (id : RendezvousHasherId) : Z * ptr RendezvousHasher :=
  match rh with
  | None => (RENDEZVOUS_HASHER_ERROR_IS_NULL, rh)
  | Some r => (RENDEZVOUS_HASHER_OK, Some (mkRendezvousHasher (id :: nodes r)))
  end.

(** The scan of [rendezvous_remove_node], lines 263-275.  [visited]
    holds the cells already passed, so [prev] is [NULL] exactly when
    [visited] is empty; the result is [(found, visited, it)] at loop
    exit. *)
Fixpoint remove_scan (id : RendezvousHasherId)
    (it visited : RendezvousHasherNodeList)
  : bool * RendezvousHasherNodeList * RendezvousHasherNodeList :=
  match it with
  | [] => (false, visited, it)
  | it_id :: next =>
      if it_id =? id then (true, visited, it)
      else remove_scan id next (visited ++ [it_id])
  end.

(** [rendezvous_remove_node], lines 256-292. *)
Definition rendezvous_remove_node (rh : ptr RendezvousHasher)
    (id : RendezvousHasherId) : Z * ptr RendezvousHasher :=
  match rh with
  | None => (RENDEZVOUS_HASHER_ERROR_IS_NULL, rh)
  | Some r =>
      match nodes r with
      | [] => (RENDEZVOUS_HASHER_OK, rh)
      | _ :: _ =>
          let '(found, visited, it) := remove_scan id (nodes r) [] in
          if found then
            match visited with
            | [] =>
                (* prev == NULL: free(rh->nodes); rh->nodes = NULL; *)
                (RENDEZVOUS_HASHER_OK, Some (mkRendezvousHasher []))
            | _ :: _ =>
                (* prev->next = it->next; free(it); *)
                (RENDEZVOUS_HASHER_OK,
                 Some (mkRendezvousHasher (visited ++ tl it)))
            end
          else (RENDEZVOUS_HASHER_OK, rh)
      end
  end.

(** ** Selection *)

Section Selector.

(** [RENDEZVOUS_HASHER_HASH], the configured hash function. *)
Variable RENDEZVOUS_HASHER_HASH : RendezvousHasherId -> RendezvousHasherHash.

(** The [while(it)] loop of [rendezvous_get_node_for], lines 305-316,
    returning [(max_hash, chosen_node_id)] at exit. *)
Fixpoint get_node_for_loop (item_id : RendezvousHasherId)
    (it : RendezvousHasherNodeList)
    (max_hash : RendezvousHasherHash) (chosen_node_id : RendezvousHasherId)
  : RendezvousHasherHash * RendezvousHasherId :=
  match it with
  | [] => (max_hash, chosen_node_id)
  | node_id :: next =>
      let id_sum := wrap (node_id + item_id) in
      let id_sum_hash := RENDEZVOUS_HASHER_HASH id_sum in
      if id_sum_hash >? max_hash
      then get_node_for_loop item_id next id_sum_hash node_id
      else get_node_for_loop item_id next max_hash chosen_node_id
  end.

(** [rendezvous_get_node_for], lines 294-320.  The third component
    is the cell behind the output pointer. *)
Definition rendezvous_get_node_for (rh : ptr RendezvousHasher)
    (item_id : RendezvousHasherId) (node_id : ptr RendezvousHasherId)
  : Z * ptr RendezvousHasher * ptr RendezvousHasherId :=
  match rh with
  | None => (RENDEZVOUS_HASHER_ERROR_IS_NULL, rh, node_id)
  | Some r =>
      match node_id with
      | None => (RENDEZVOUS_HASHER_ERROR_ARGUMENT_NULL, rh, node_id)
      | Some _ =>
          let '(_, chosen_node_id) :=
            get_node_for_loop item_id (nodes r) 0 0 in
          (RENDEZVOUS_HASHER_OK, rh, Some chosen_node_id)
      end
  end.

End Selector.

(** Projections of a call's result. *)
Definition status_of {A B : Type} (res : Z * A * B) : Z := fst (fst res).
Definition registry_of {A B : Type} (res : Z * A * B) : A := snd (fst res).
Definition cell_of {A B : Type} (res : Z * A * B) : B := snd res.

(** The score of node [n] for key [item_id], as the loop computes it. *)
Definition score (hash : RendezvousHasherId -> RendezvousHasherHash)
    (item_id n : RendezvousHasherId) : RendezvousHasherHash :=
  hash (wrap (n + item_id)).

(** The node the loop ends on for a given chain and key. *)
Definition selected (hash : RendezvousHasherId -> RendezvousHasherHash)
    (l : RendezvousHasherNodeList) (item_id : RendezvousHasherId)
  : RendezvousHasherId :=
  snd (get_node_for_loop hash item_id l 0 0).

(** ** Call sequences *)

(** A run of read-only calls: each query is a key and the output cell
    it is given; the registry is threaded through. *)
Fixpoint read_only_calls (hash : RendezvousHasherId -> RendezvousHasherHash)
    (rh : ptr RendezvousHasher)
    (qs : list (RendezvousHasherId * ptr RendezvousHasherId))
  : ptr RendezvousHasher :=
  match qs with
  | [] => rh
  | (k, o) :: qs' =>
      read_only_calls hash
        (registry_of (rendezvous_get_node_for hash rh k o)) qs'
  end.

(** [n] successive calls with the same handle, key and output pointer,
    the queries [between] running after each of them; the results are
    collected in call order. *)
Fixpoint repeated_calls (hash : RendezvousHasherId -> RendezvousHasherHash)
    (n : nat) (rh : ptr RendezvousHasher) (item_id : RendezvousHasherId)
    (node_id : ptr RendezvousHasherId)
    (between : list (RendezvousHasherId * ptr RendezvousHasherId))
  : list (Z * ptr RendezvousHasher * ptr RendezvousHasherId) :=
  match n with
  | O => []
  | S n' =>
      let res := rendezvous_get_node_for hash rh item_id node_id in
      res :: repeated_calls hash n'
               (read_only_calls hash (registry_of res) between)
               item_id (cell_of res) between
  end.

(** [rendezvous_init] followed by one [rendezvous_add_node] per
    identifier, in the given order (the opening of [main] in
    [src/test.c]). *)
Definition build (ids : list RendezvousHasherId) (rh : ptr RendezvousHasher)
  : ptr RendezvousHasher :=
  fold_left (fun rh id => snd (rendezvous_add_node rh id)) ids
    (snd (rendezvous_init rh)).

(** The registry of [src/test.c], lines 47-52; [uninit] is whatever the
    stack slot held before [rendezvous_init]. *)
Definition test_rh (uninit : RendezvousHasher) : ptr RendezvousHasher :=
  build [6969; 420; 7777] (Some uninit).

(** ** Reference behaviour of removal *)

(** Removal in the documentation's words: drop the first entry equal to
    [id] met by a scan from the head, keep everything else. *)
Fixpoint remove_first (id : RendezvousHasherId)
    (l : RendezvousHasherNodeList) : RendezvousHasherNodeList :=
  match l with
  | [] => []
  | x :: t => if x =? id then t else x :: remove_first id t
  end.

(** ** The checking harness of [src/test.c] *)

(** The [while (it)] loop of [print_and_check], lines 26-38, returning
    [(max_id, max_hash)] at exit. *)
Fixpoint print_and_check_loop
    (hash : RendezvousHasherId -> RendezvousHasherHash)
    (item_id : RendezvousHasherId) (it : RendezvousHasherNodeList)
    (max_id : RendezvousHasherId) (max_hash : RendezvousHasherHash)
  : RendezvousHasherId * RendezvousHasherHash :=
  match it with
  | [] => (max_id, max_hash)
  | it_id :: next =>
      let id_sum := wrap (it_id + item_id) in
      let id_sum_hash := hash id_sum in
      if id_sum_hash >? max_hash
      then print_and_check_loop hash item_id next it_id id_sum_hash
      else print_and_check_loop hash item_id next max_id max_hash
  end.

(** [print_and_check], lines 13-43, without its printing: [true] when
    the function returns, [false] when one of its two assertions
    aborts.  [uninit] is what the local [chosen_node_id] holds before
    the call. *)
Definition print_and_check
    (hash : RendezvousHasherId -> RendezvousHasherHash)
    (rh : ptr RendezvousHasher) (item_id uninit : RendezvousHasherId)
  : bool :=
  let res := rendezvous_get_node_for hash rh item_id (Some uninit) in
  if status_of res =? RENDEZVOUS_HASHER_OK then
    match rh, cell_of res with
    | Some r, Some chosen_node_id =>
        let '(max_id, _) :=
          print_and_check_loop hash item_id (nodes r) 0 0 in
        chosen_node_id =? max_id
    | _, _ => false
    end
  else false.

(** ** Value ranges *)

(** The values an [unsigned int] can hold. *)
Definition is_uint (x : Z) : Prop := 0 <= x < 2 ^ UINT_WIDTH.

(** * Properties *)

(** ** The selection loop *)

Section LoopFacts.

Variable hash : RendezvousHasherId -> RendezvousHasherHash.
Variable item_id : RendezvousHasherId.

Local Abbreviation loop := (get_node_for_loop hash item_id).
Local Abbreviation sc := (score hash item_id).

Lemma loop_cons (n : RendezvousHasherId) (l : RendezvousHasherNodeList)
    (m : RendezvousHasherHash) (c : RendezvousHasherId) :
  loop (n :: l) m c = if sc n >? m then loop l (sc n) n else loop l m c.
Proof. reflexivity. Qed.

(** The loop over a concatenation resumes from where the first part
    stopped. *)
Lemma loop_app (l1 l2 : RendezvousHasherNodeList) :
  forall m c,
    loop (l1 ++ l2) m c = loop l2 (fst (loop l1 m c)) (snd (loop l1 m c)).
Proof.
  induction l1 as [|n l1 IH]; intros m c.
  - reflexivity.
  - rewrite <- app_comm_cons, !loop_cons.
    destruct (sc n >? m); apply IH.
Qed.

(** The running maximum never decreases. *)
Lemma loop_max_mono (l : RendezvousHasherNodeList) :
  forall m c, m <= fst (loop l m c).
Proof.
  induction l as [|n l IH]; intros m c.
  - simpl. lia.
  - rewrite loop_cons.
    destruct (Z.gtb_spec (sc n) m) as [Hgt|Hle].
    + specialize (IH (sc n) n). lia.
    + apply IH.
Qed.

(** Either no cell beat the initial maximum, or the chosen node is a
    cell of the chain whose score is the final maximum and exceeds
    the initial one. *)
Lemma loop_result (l : RendezvousHasherNodeList) :
  forall m c,
    loop l m c = (m, c) \/
    (In (snd (loop l m c)) l /\
     sc (snd (loop l m c)) = fst (loop l m c) /\
     m < fst (loop l m c)).
Proof.
  induction l as [|n l IH]; intros m c.
  - left. reflexivity.
  - rewrite loop_cons.
    destruct (Z.gtb_spec (sc n) m) as [Hgt|Hle].
    + right.
      destruct (IH (sc n) n) as [Heq|(Hin & Hsc & Hlt)].
      * rewrite Heq. simpl. auto.
      * simpl. repeat split; auto. lia.
    + destruct (IH m c) as [Heq|(Hin & Hsc & Hlt)].
      * left. exact Heq.
      * right. simpl. auto.
Qed.

(** A cell list whose scores never exceed the running maximum leaves
    the loop state as it was. *)
Lemma loop_no_update (l : RendezvousHasherNodeList) :
  forall m c,
    (forall n, In n l -> sc n <= m) -> loop l m c = (m, c).
Proof.
  induction l as [|n l IH]; intros m c Hall.
  - reflexivity.
  - rewrite loop_cons.
    destruct (Z.gtb_spec (sc n) m) as [Hgt|Hle].
    + specialize (Hall n (or_introl eq_refl)). lia.
    + apply IH. intros n' Hn'. apply Hall. right. exact Hn'.
Qed.

(** Either the chain leaves the state untouched, or its outcome does
    not depend on the state it started from, for any start at or
    below the given maximum. *)
Lemma loop_start_irrelevant (l : RendezvousHasherNodeList) :
  forall m c,
    loop l m c = (m, c) \/
    (forall m' c', m' <= m -> loop l m' c' = loop l m c).
Proof.
  induction l as [|n l IH]; intros m c.
  - left. reflexivity.
  - rewrite loop_cons.
    destruct (Z.gtb_spec (sc n) m) as [Hgt|Hle].
    + right. intros m' c' Hm'. rewrite loop_cons.
      destruct (Z.gtb_spec (sc n) m'); [reflexivity | lia].
    + destruct (IH m c) as [Heq|Hany].
      * left. exact Heq.
      * right. intros m' c' Hm'. rewrite loop_cons.
        destruct (Z.gtb_spec (sc n) m') as [Hgt'|Hle'].
        -- apply Hany. exact Hle.
        -- apply Hany. exact Hm'.
Qed.

(** Every cell's score is bounded by the final maximum. *)
Lemma loop_max_bound (l : RendezvousHasherNodeList) :
  forall m c n, In n l -> sc n <= fst (loop l m c).
Proof.
  induction l as [|x l IH]; intros m c n Hin.
  - destruct Hin.
  - rewrite loop_cons. destruct Hin as [->|Hin].
    + destruct (Z.gtb_spec (sc n) m) as [Hgt|Hle].
      * apply loop_max_mono.
      * pose proof (loop_max_mono l m c). lia.
    + destruct (sc x >? m); apply IH; exact Hin.
Qed.

(** Putting a cell in front of the chain: the outcome is that cell or
    the outcome without it. *)
Lemma selected_cons (d : RendezvousHasherId) (l : RendezvousHasherNodeList) :
  selected hash (d :: l) item_id = d \/
  selected hash (d :: l) item_id = selected hash l item_id.
Proof.
  unfold selected. rewrite loop_cons.
  destruct (Z.gtb_spec (sc d) 0) as [Hgt|Hle].
  - destruct (loop_start_irrelevant l (sc d) d) as [Heq|Hany].
    + left. rewrite Heq. reflexivity.
    + right. rewrite (Hany 0 0); [reflexivity | lia].
  - right. reflexivity.
Qed.

(** Taking one cell out of the middle of the chain: a key that was
    not on that cell's node stays where it was. *)
Lemma selected_remove_middle (l1 l2 : RendezvousHasherNodeList)
    (c : RendezvousHasherId) :
  selected hash (l1 ++ c :: l2) item_id <> c ->
  selected hash (l1 ++ l2) item_id = selected hash (l1 ++ c :: l2) item_id.
Proof.
  unfold selected. rewrite !loop_app, loop_cons.
  set (m1 := fst (loop l1 0 0)). set (c1 := snd (loop l1 0 0)).
  destruct (Z.gtb_spec (sc c) m1) as [Hgt|Hle]; [|reflexivity].
  intros Hne.
  destruct (loop_start_irrelevant l2 (sc c) c) as [Heq|Hany].
  - rewrite Heq in Hne. simpl in Hne. congruence.
  - rewrite (Hany m1 c1); [reflexivity | lia].
Qed.

(** The outcome is the zero identifier or a cell of the chain. *)
Lemma selected_zero_or_in (l : RendezvousHasherNodeList) :
  selected hash l item_id = 0 \/ In (selected hash l item_id) l.
Proof.
  unfold selected.
  destruct (loop_result l 0 0) as [Heq|(Hin & _)].
  - left. rewrite Heq. reflexivity.
  - right. exact Hin.
Qed.

(** What a successful call returns, in terms of [selected]. *)
Lemma get_node_for_ok (r : RendezvousHasher) (out : RendezvousHasherId) :
  rendezvous_get_node_for hash (Some r) item_id (Some out) =
  (RENDEZVOUS_HASHER_OK, Some r, Some (selected hash (nodes r) item_id)).
Proof.
  unfold rendezvous_get_node_for, selected.
  destruct (loop (nodes r) 0 0). reflexivity.
Qed.

End LoopFacts.

(** A call never changes the registry it reads. *)
Lemma get_node_for_registry hash rh k o :
  registry_of (rendezvous_get_node_for hash rh k o) = rh.
Proof.
  destruct rh as [r|]; [destruct o as [out|]|]; try reflexivity.
  rewrite get_node_for_ok. reflexivity.
Qed.

Lemma read_only_calls_id hash qs :
  forall rh, read_only_calls hash rh qs = rh.
Proof.
  induction qs as [|[k o] qs IH]; intros rh; simpl.
  - reflexivity.
  - rewrite get_node_for_registry. apply IH.
Qed.

(** Calling again on the cell the previous call wrote gives the
    previous result. *)
Lemma get_node_for_again hash rh k o :
  rendezvous_get_node_for hash rh k
    (cell_of (rendezvous_get_node_for hash rh k o)) =
  rendezvous_get_node_for hash rh k o.
Proof.
  destruct rh as [r|]; [destruct o as [out|]|]; try reflexivity.
  rewrite get_node_for_ok. unfold cell_of. cbn [snd]. apply get_node_for_ok.
Qed.

(** ** The removal scan *)

Lemma remove_scan_absent (id : RendezvousHasherId)
    (l : RendezvousHasherNodeList) :
  forall visited,
    ~ In id l -> remove_scan id l visited = (false, visited ++ l, []).
Proof.
  induction l as [|x l IH]; intros visited Hnot; simpl.
  - rewrite app_nil_r. reflexivity.
  - destruct (Z.eqb_spec x id) as [->|Hne].
    + exfalso. apply Hnot. left. reflexivity.
    + rewrite IH.
      * rewrite <- app_assoc. reflexivity.
      * intros Hin. apply Hnot. right. exact Hin.
Qed.

Lemma remove_scan_present (id : RendezvousHasherId)
    (l1 l2 : RendezvousHasherNodeList) :
  forall visited,
    ~ In id l1 ->
    remove_scan id (l1 ++ id :: l2) visited = (true, visited ++ l1, id :: l2).
Proof.
  induction l1 as [|x l1 IH]; intros visited Hnot; simpl.
  - rewrite Z.eqb_refl, app_nil_r. reflexivity.
  - destruct (Z.eqb_spec x id) as [->|Hne].
    + exfalso. apply Hnot. left. reflexivity.
    + rewrite IH.
      * rewrite <- app_assoc. reflexivity.
      * intros Hin. apply Hnot. right. exact Hin.
Qed.

(** The first occurrence of a member splits the chain. *)
Lemma in_first_split (id : RendezvousHasherId)
    (l : RendezvousHasherNodeList) :
  In id l -> exists l1 l2, l = l1 ++ id :: l2 /\ ~ In id l1.
Proof.
  induction l as [|x l IH]; intros Hin.
  - destruct Hin.
  - destruct (Z.eq_dec x id) as [->|Hne].
    + exists [], l. split; [reflexivity | intros []].
    + destruct Hin as [Heq|Hin]; [congruence|].
      destruct (IH Hin) as (l1 & l2 & -> & Hnot).
      exists (x :: l1), l2. split; [reflexivity|].
      intros [Heq|Hin1]; [congruence | exact (Hnot Hin1)].
Qed.

Lemma remove_first_absent (id : RendezvousHasherId)
    (l : RendezvousHasherNodeList) :
  ~ In id l -> remove_first id l = l.
Proof.
  induction l as [|x l IH]; intros Hnot; simpl.
  - reflexivity.
  - destruct (Z.eqb_spec x id) as [->|Hne].
    + exfalso. apply Hnot. left. reflexivity.
    + f_equal. apply IH. intros Hin. apply Hnot. right. exact Hin.
Qed.

Lemma remove_first_present (id : RendezvousHasherId)
    (l1 l2 : RendezvousHasherNodeList) :
  ~ In id l1 -> remove_first id (l1 ++ id :: l2) = l1 ++ l2.
Proof.
  induction l1 as [|x l1 IH]; intros Hnot; simpl.
  - rewrite Z.eqb_refl. reflexivity.
  - destruct (Z.eqb_spec x id) as [->|Hne].
    + exfalso. apply Hnot. left. reflexivity.
    + f_equal. apply IH. intros Hin. apply Hnot. right. exact Hin.
Qed.

(** No entry matches: the registry is handed back as it was. *)
Lemma remove_node_absent (r : RendezvousHasher) (id : RendezvousHasherId) :
  ~ In id (nodes r) ->
  rendezvous_remove_node (Some r) id = (RENDEZVOUS_HASHER_OK, Some r).
Proof.
  intros Hnot. unfold rendezvous_remove_node.
  destruct (nodes r) as [|x t] eqn:Hn; [reflexivity|].
  rewrite remove_scan_absent by exact Hnot. reflexivity.
Qed.

(** The match is the head cell: the registry is left with no cell at
    all, whatever followed the head. *)
Lemma remove_node_head (r : RendezvousHasher) (id : RendezvousHasherId)
    (t : RendezvousHasherNodeList) :
  nodes r = id :: t ->
  rendezvous_remove_node (Some r) id =
  (RENDEZVOUS_HASHER_OK, Some (mkRendezvousHasher [])).
Proof.
  intros Hn. unfold rendezvous_remove_node. rewrite Hn. simpl.
  rewrite Z.eqb_refl. reflexivity.
Qed.

(** The first match lies behind the head: that one cell is unlinked. *)
Lemma remove_node_inner (r : RendezvousHasher) (id x : RendezvousHasherId)
    (l1 l2 : RendezvousHasherNodeList) :
  nodes r = (x :: l1) ++ id :: l2 -> ~ In id (x :: l1) ->
  rendezvous_remove_node (Some r) id =
  (RENDEZVOUS_HASHER_OK, Some (mkRendezvousHasher ((x :: l1) ++ l2))).
Proof.
  intros Hn Hnot. unfold rendezvous_remove_node. rewrite Hn.
  rewrite <- app_comm_cons at 1.
  rewrite remove_scan_present by exact Hnot.
  reflexivity.
Qed.

(** Whenever the head does not match, the code agrees with
    [remove_first]. *)
Lemma remove_node_not_head (r : RendezvousHasher) (id x : RendezvousHasherId)
    (t : RendezvousHasherNodeList) :
  nodes r = x :: t -> x <> id ->
  rendezvous_remove_node (Some r) id =
  (RENDEZVOUS_HASHER_OK,
   Some (mkRendezvousHasher (remove_first id (nodes r)))).
Proof.
  intros Hn Hne.
  destruct (in_dec Z.eq_dec id t) as [Hin|Hnot].
  - destruct (in_first_split id t Hin) as (l1 & l2 & Ht & Hl1).
    assert (Hnot : ~ In id (x :: l1)).
    { intros [Heq|H1]; [congruence | exact (Hl1 H1)]. }
    rewrite (remove_node_inner r id x l1 l2); [|rewrite Hn, Ht; reflexivity|exact Hnot].
    rewrite Hn, Ht, app_comm_cons, remove_first_present by exact Hnot.
    reflexivity.
  - assert (Hnot' : ~ In id (nodes r)).
    { rewrite Hn. intros [Heq|H1]; [congruence | exact (Hnot H1)]. }
    rewrite remove_node_absent by exact Hnot'.
    rewrite remove_first_absent by exact Hnot'.
    destruct r. reflexivity.
Qed.

(** ** Minimal disruption, where the code provides it *)

(** Adding a node: a key either moves to the new node or stays. *)
Lemma add_node_only_captures hash (r : RendezvousHasher)
    (d k out : RendezvousHasherId) :
  let rh' := snd (rendezvous_add_node (Some r) d) in
  cell_of (rendezvous_get_node_for hash rh' k (Some out)) = Some d \/
  cell_of (rendezvous_get_node_for hash rh' k (Some out)) =
  cell_of (rendezvous_get_node_for hash (Some r) k (Some out)).
Proof.
  unfold rendezvous_add_node. cbn [snd].
  rewrite !get_node_for_ok. unfold cell_of. cbn [snd nodes].
  destruct (selected_cons hash k d (nodes r)) as [H|H]; rewrite H; auto.
Qed.

(** Removing a node whose first cell is not the head: a key that was
    not on that node stays where it was. *)
Lemma remove_node_inner_keeps_others hash (r : RendezvousHasher)
    (c x k out : RendezvousHasherId) (t : RendezvousHasherNodeList) :
  nodes r = x :: t -> x <> c ->
  cell_of (rendezvous_get_node_for hash (Some r) k (Some out)) <> Some c ->
  let rh' := snd (rendezvous_remove_node (Some r) c) in
  cell_of (rendezvous_get_node_for hash rh' k (Some out)) =
  cell_of (rendezvous_get_node_for hash (Some r) k (Some out)).
Proof.
  intros Hn Hne Hsel.
  rewrite (remove_node_not_head r c x t Hn Hne). cbn [snd].
  rewrite !get_node_for_ok in *. unfold cell_of in *. cbn [snd nodes] in *.
  f_equal.
  destruct (in_dec Z.eq_dec c (nodes r)) as [Hin|Hnot].
  - destruct (in_first_split c (nodes r) Hin) as (l1 & l2 & Hl & Hl1).
    rewrite Hl in *. rewrite remove_first_present by exact Hl1.
    apply selected_remove_middle. congruence.
  - rewrite remove_first_absent by exact Hnot. reflexivity.
Qed.

(** * The claims *)

(** C1 (minimal disruption), evaluated where it breaks: in the registry
    of [src/test.c] key 456 is on node 420 and key 23748274 on node
    6969; removing node 7777, the head cell, leaves both keys on the
    zero identifier although neither was on the removed node. *)
Theorem C1_head_removal_moves_unrelated_keys :
  forall (uninit : RendezvousHasher) (out : RendezvousHasherId),
    let S := test_rh uninit in
    let S' := snd (rendezvous_remove_node S 7777) in
    rendezvous_get_node_for rendezvous_hasher_hash_uint32 S 456 (Some out) =
      (RENDEZVOUS_HASHER_OK, S, Some 420) /\
    rendezvous_get_node_for rendezvous_hasher_hash_uint32 S' 456 (Some out) =
      (RENDEZVOUS_HASHER_OK, S', Some 0) /\
    rendezvous_get_node_for rendezvous_hasher_hash_uint32 S 23748274 (Some out) =
      (RENDEZVOUS_HASHER_OK, S, Some 6969) /\
    rendezvous_get_node_for rendezvous_hasher_hash_uint32 S' 23748274 (Some out) =
      (RENDEZVOUS_HASHER_OK, S', Some 0).
Proof.
  intros uninit out. vm_compute. repeat split.
Qed.

(** C2 (removal drops one entry and keeps the others), evaluated where
    it breaks: removing 7777 from the registry holding 7777, 420, 6969
    in scan order returns success and leaves no entry at all, where
    dropping the first match would leave 420 and 6969. *)
Theorem C2_head_removal_drops_every_entry :
  forall uninit : RendezvousHasher,
    test_rh uninit = Some (mkRendezvousHasher [7777; 420; 6969]) /\
    rendezvous_remove_node (test_rh uninit) 7777 =
      (RENDEZVOUS_HASHER_OK, Some (mkRendezvousHasher [])) /\
    remove_first 7777 [7777; 420; 6969] = [420; 6969].
Proof.
  intros uninit. vm_compute. repeat split.
Qed.

(** C3 (concrete selection): on the registry built from 6969, 420 and
    7777 with the built-in hash, key 123 goes to 7777, key 456 to 420
    and key 23748274 to 6969, each being the node whose hash of
    node + key is strictly above the other two; a query leaves the
    registry as it was, so a query's answer does not depend on the
    queries made before it. *)
Theorem C3_concrete_selection :
  forall (uninit : RendezvousHasher) (out : RendezvousHasherId),
    let H := rendezvous_hasher_hash_uint32 in
    let rh := test_rh uninit in
    rh = Some (mkRendezvousHasher [7777; 420; 6969]) /\
    (rendezvous_get_node_for H rh 123 (Some out) =
       (RENDEZVOUS_HASHER_OK, rh, Some 7777) /\
     H (420 + 123) < H (7777 + 123) /\ H (6969 + 123) < H (7777 + 123)) /\
    (rendezvous_get_node_for H rh 456 (Some out) =
       (RENDEZVOUS_HASHER_OK, rh, Some 420) /\
     H (7777 + 456) < H (420 + 456) /\ H (6969 + 456) < H (420 + 456)) /\
    (rendezvous_get_node_for H rh 23748274 (Some out) =
       (RENDEZVOUS_HASHER_OK, rh, Some 6969) /\
     H (7777 + 23748274) < H (6969 + 23748274) /\
     H (420 + 23748274) < H (6969 + 23748274)) /\
    (forall k1 k2 o1 o2,
        rendezvous_get_node_for H
          (registry_of (rendezvous_get_node_for H rh k1 o1)) k2 o2 =
        rendezvous_get_node_for H rh k2 o2).
Proof.
  intros uninit out H rh.
  split; [reflexivity|].
  split; [vm_compute; repeat split|].
  split; [vm_compute; repeat split|].
  split; [vm_compute; repeat split|].
  intros k1 k2 o1 o2. rewrite get_node_for_registry. reflexivity.
Qed.

(** C4 (determinism): for any hash, registry, key and output pointer,
    [n] successive calls with the same arguments, with any read-only
    queries run between them, are [n] results each equal to the first
    call's status, registry and stored node. *)
Theorem C4_determinism :
  forall hash (n : nat) (rh : ptr RendezvousHasher)
         (item_id : RendezvousHasherId) (node_id : ptr RendezvousHasherId)
         (between : list (RendezvousHasherId * ptr RendezvousHasherId)),
    length (repeated_calls hash n rh item_id node_id between) = n /\
    Forall (fun res => res = rendezvous_get_node_for hash rh item_id node_id)
           (repeated_calls hash n rh item_id node_id between).
Proof.
  intros hash n rh item_id node_id between. revert node_id.
  induction n as [|n IH]; intros node_id.
  - split; [reflexivity | constructor].
  - cbn [repeated_calls].
    rewrite read_only_calls_id, get_node_for_registry.
    destruct (IH (cell_of (rendezvous_get_node_for hash rh item_id node_id)))
      as [Hlen Hall].
    split.
    + cbn [length]. rewrite Hlen. reflexivity.
    + constructor; [reflexivity|].
      rewrite get_node_for_again in Hall. exact Hall.
Qed.

(** C5 (concrete removal): after adding 6969, 420 and 7777 to a fresh
    registry, removing 420 succeeds and leaves exactly the cells 7777
    and 6969; every later query, for any hash and key and after any
    read-only queries, succeeds and stores a node other than 420. *)
Theorem C5_concrete_removal :
  forall uninit : RendezvousHasher,
    let res := rendezvous_remove_node (test_rh uninit) 420 in
    res = (RENDEZVOUS_HASHER_OK, Some (mkRendezvousHasher [7777; 6969])) /\
    (forall hash qs k out,
        exists n,
          rendezvous_get_node_for hash
            (read_only_calls hash (snd res) qs) k (Some out) =
          (RENDEZVOUS_HASHER_OK, snd res, Some n) /\ n <> 420).
Proof.
  intros uninit res.
  assert (Hres : res =
    (RENDEZVOUS_HASHER_OK, Some (mkRendezvousHasher [7777; 6969])))
    by reflexivity.
  split; [exact Hres|].
  intros hash qs k out. rewrite read_only_calls_id, Hres. cbn [snd].
  rewrite get_node_for_ok. cbn [nodes].
  eexists. split; [reflexivity|].
  destruct (selected_zero_or_in hash k [7777; 6969]) as [H0|Hin].
  - rewrite H0. discriminate.
  - destruct Hin as [<-|[<-|[]]]; discriminate.
Qed.

(** C6 (empty registry): on a registry with no node, whether written
    down directly, just initialised or just freed, a query with a valid
    output pointer returns [RENDEZVOUS_HASHER_OK] and overwrites
    whatever the output cell held with 0. *)
Theorem C6_empty_registry_gives_zero :
  forall hash (k garbage : RendezvousHasherId) (r : RendezvousHasher),
    let empty := Some (mkRendezvousHasher []) in
    rendezvous_get_node_for hash empty k (Some garbage) =
      (RENDEZVOUS_HASHER_OK, empty, Some 0) /\
    rendezvous_get_node_for hash
      (snd (rendezvous_init (Some r))) k (Some garbage) =
      (RENDEZVOUS_HASHER_OK, empty, Some 0) /\
    rendezvous_get_node_for hash
      (snd (rendezvous_free (Some r))) k (Some garbage) =
      (RENDEZVOUS_HASHER_OK, empty, Some 0).
Proof.
  intros hash k garbage r empty. repeat split.
Qed.

(** C7 (idempotent teardown): for every registry, [rendezvous_free]
    returns success and leaves [nodes] empty; a second call on the
    result returns success again and leaves the same empty registry. *)
Theorem C7_free_idempotent :
  forall r : RendezvousHasher,
    let first := rendezvous_free (Some r) in
    let second := rendezvous_free (snd first) in
    first = (RENDEZVOUS_HASHER_OK, Some (mkRendezvousHasher [])) /\
    second = (RENDEZVOUS_HASHER_OK, Some (mkRendezvousHasher [])) /\
    snd second = snd first.
Proof.
  intros r. repeat split.
Qed.

(** C8 (removing an absent id): for every registry and every id equal
    to none of its entries, [rendezvous_remove_node] returns
    [RENDEZVOUS_HASHER_OK] and the registry is exactly what it was. *)
Theorem C8_remove_absent_is_noop :
  forall (r : RendezvousHasher) (id : RendezvousHasherId),
    ~ In id (nodes r) ->
    rendezvous_remove_node (Some r) id = (RENDEZVOUS_HASHER_OK, Some r).
Proof.
  intros r id Hnot. apply remove_node_absent. exact Hnot.
Qed.

Lemma C8_remove_absent_is_noop_witness :
  ~ In 1 (nodes (mkRendezvousHasher [7777; 420; 6969])) /\
  rendezvous_remove_node (Some (mkRendezvousHasher [7777; 420; 6969])) 1 =
  (RENDEZVOUS_HASHER_OK, Some (mkRendezvousHasher [7777; 420; 6969])).
Proof.
  assert (Hnot : ~ In 1 (nodes (mkRendezvousHasher [7777; 420; 6969]))).
  { simpl. intros [H|[H|[H|[]]]]; discriminate H. }
  split; [exact Hnot|].
  exact (C8_remove_absent_is_noop
           (mkRendezvousHasher [7777; 420; 6969]) 1 Hnot).
Defined.

(** C9 (fail fast): with a null handle every operation returns
    [RENDEZVOUS_HASHER_ERROR_IS_NULL] and hands back the handle and the
    output cell untouched; with a valid handle and a null output
    pointer [rendezvous_get_node_for] returns
    [RENDEZVOUS_HASHER_ERROR_ARGUMENT_NULL] and the registry is what it
    was. *)
Theorem C9_fail_fast :
  rendezvous_init None = (RENDEZVOUS_HASHER_ERROR_IS_NULL, None) /\
  rendezvous_free None = (RENDEZVOUS_HASHER_ERROR_IS_NULL, None) /\
  (forall id,
      rendezvous_add_node None id = (RENDEZVOUS_HASHER_ERROR_IS_NULL, None)) /\
  (forall id,
      rendezvous_remove_node None id =
      (RENDEZVOUS_HASHER_ERROR_IS_NULL, None)) /\
  (forall hash item_id node_id,
      rendezvous_get_node_for hash None item_id node_id =
      (RENDEZVOUS_HASHER_ERROR_IS_NULL, None, node_id)) /\
  (forall hash r item_id,
      rendezvous_get_node_for hash (Some r) item_id None =
      (RENDEZVOUS_HASHER_ERROR_ARGUMENT_NULL, Some r, None)) /\
  RENDEZVOUS_HASHER_ERROR_IS_NULL <> RENDEZVOUS_HASHER_OK /\
  RENDEZVOUS_HASHER_ERROR_ARGUMENT_NULL <> RENDEZVOUS_HASHER_OK /\
  RENDEZVOUS_HASHER_ERROR_IS_NULL <> RENDEZVOUS_HASHER_ERROR_ARGUMENT_NULL.
Proof.
  repeat split; discriminate.
Qed.

(** C10 (a zero score is never selected): for any hash and key, a node
    [n] whose score is 0 is passed over by the loop from every state it
    can be in (the running maximum starts at 0 and never decreases), so
    a query stores [n] only when [n] is the zero identifier the loop
    started with; and on a registry, empty or not, whose nodes all
    score 0 the query succeeds and stores 0. *)
Theorem C10_zero_score_never_selected :
  forall hash (k : RendezvousHasherId) (r : RendezvousHasher)
         (out n : RendezvousHasherId),
    score hash k n = 0 ->
    (forall l m c,
        0 <= m ->
        get_node_for_loop hash k (n :: l) m c = get_node_for_loop hash k l m c) /\
    (rendezvous_get_node_for hash (Some r) k (Some out) =
       (RENDEZVOUS_HASHER_OK, Some r, Some n) -> n = 0) /\
    ((forall n', In n' (nodes r) -> score hash k n' = 0) ->
     rendezvous_get_node_for hash (Some r) k (Some out) =
       (RENDEZVOUS_HASHER_OK, Some r, Some 0)).
Proof.
  intros hash k r out n Hzero. split; [|split].
  - intros l m c Hm. rewrite loop_cons, Hzero.
    destruct (Z.gtb_spec 0 m); [lia | reflexivity].
  - rewrite get_node_for_ok. intros Heq.
    assert (Hsel : selected hash (nodes r) k = n) by congruence.
    unfold selected in Hsel.
    destruct (loop_result hash k (nodes r) 0 0) as [H0|(_ & Hsc & Hlt)].
    + rewrite H0 in Hsel. simpl in Hsel. congruence.
    + rewrite Hsel, Hzero in Hsc. lia.
  - intros Hall. rewrite get_node_for_ok. unfold selected.
    rewrite loop_no_update; [reflexivity|].
    intros n' Hin. rewrite (Hall n' Hin). lia.
Qed.

Lemma C10_zero_score_never_selected_witness :
  score rendezvous_hasher_hash_uint32 0 61 = 0 /\
  rendezvous_get_node_for rendezvous_hasher_hash_uint32
    (Some (mkRendezvousHasher [61])) 0 (Some 7) =
  (RENDEZVOUS_HASHER_OK, Some (mkRendezvousHasher [61]), Some 0).
Proof.
  assert (Hzero : score rendezvous_hasher_hash_uint32 0 61 = 0)
    by (vm_compute; reflexivity).
  split; [exact Hzero|].
  apply (C10_zero_score_never_selected rendezvous_hasher_hash_uint32 0
           (mkRendezvousHasher [61]) 7 61 Hzero).
  intros n' [<-|[]]. exact Hzero.
Defined.

(** * Further properties *)

(** ** Arithmetic of the built-in hash *)

Lemma wrap_is_uint (x : Z) : is_uint (wrap x).
Proof.
  unfold is_uint, wrap. apply Z.mod_pos_bound.
  unfold UINT_WIDTH. lia.
Qed.

Lemma wrap_small (x : Z) : is_uint x -> wrap x = x.
Proof.
  unfold is_uint, wrap. intros H. apply Z.mod_small. exact H.
Qed.

Lemma uint_high_bits (x i : Z) :
  is_uint x -> UINT_WIDTH <= i -> Z.testbit x i = false.
Proof.
  unfold is_uint, UINT_WIDTH. intros [Hlo Hhi] Hi.
  destruct (Z.eq_dec x 0) as [->|Hne].
  - apply Z.testbit_0_l.
  - apply Z.bits_above_log2; [lia|].
    assert (Z.log2 x < 32) by (apply Z.log2_lt_pow2; lia).
    lia.
Qed.

Lemma high_bits_uint (x : Z) :
  0 <= x ->
  (forall i, UINT_WIDTH <= i -> Z.testbit x i = false) ->
  is_uint x.
Proof.
  unfold is_uint, UINT_WIDTH. intros Hlo Hbits. split; [exact Hlo|].
  destruct (Z.eq_dec x 0) as [->|Hne]; [lia|].
  apply Z.log2_lt_pow2; [lia|].
  destruct (Z_lt_le_dec (Z.log2 x) 32) as [Hlt|Hge]; [exact Hlt|].
  exfalso.
  assert (Hb : Z.testbit x (Z.log2 x) = true) by (apply Z.bit_log2; lia).
  rewrite (Hbits (Z.log2 x) Hge) in Hb. discriminate.
Qed.

Lemma lxor_is_uint (x y : Z) : is_uint x -> is_uint y -> is_uint (Z.lxor x y).
Proof.
  intros Hx Hy. apply high_bits_uint.
  - apply Z.lxor_nonneg. unfold is_uint in *. lia.
  - intros i Hi. rewrite Z.lxor_spec.
    rewrite (uint_high_bits x i Hx Hi), (uint_high_bits y i Hy Hi).
    reflexivity.
Qed.

Lemma shiftr_is_uint (x k : Z) : is_uint x -> 0 <= k -> is_uint (Z.shiftr x k).
Proof.
  intros Hx Hk. apply high_bits_uint.
  - apply Z.shiftr_nonneg. unfold is_uint in Hx. lia.
  - intros i Hi. unfold UINT_WIDTH in Hi.
    rewrite Z.shiftr_spec by lia.
    apply uint_high_bits; [exact Hx | unfold UINT_WIDTH; lia].
Qed.

(** [x ^ (x >> k)] determines [x]: the top [k] bits are copied, and each
    lower bit is recovered from the one [k] places above it. *)
Lemma xorshift_injective (k x y : Z) :
  0 < k -> is_uint x -> is_uint y ->
  Z.lxor x (Z.shiftr x k) = Z.lxor y (Z.shiftr y k) -> x = y.
Proof.
  intros Hk Hx Hy Heq.
  assert (Hbits : forall d : nat, forall i,
             UINT_WIDTH - Z.of_nat d <= i -> 0 <= i ->
             Z.testbit x i = Z.testbit y i).
  { induction d as [|d IH]; intros i Hi Hi0.
    - rewrite (uint_high_bits x i Hx), (uint_high_bits y i Hy) by lia.
      reflexivity.
    - assert (Hup : Z.testbit x (i + k) = Z.testbit y (i + k))
        by (apply IH; lia).
      assert (Hi' : Z.testbit (Z.lxor x (Z.shiftr x k)) i =
                    Z.testbit (Z.lxor y (Z.shiftr y k)) i)
        by (rewrite Heq; reflexivity).
      rewrite !Z.lxor_spec, !Z.shiftr_spec, Hup in Hi' by lia.
      destruct (Z.testbit x i), (Z.testbit y i), (Z.testbit y (i + k));
        simpl in Hi'; congruence. }
  apply Z.bits_inj'. intros i Hi.
  apply (Hbits 32%nat); unfold UINT_WIDTH; lia.
Qed.

(** Multiplication by a unit modulo [2^32] loses nothing. *)
Lemma mul_unit_injective (c cinv x y : Z) :
  wrap (c * cinv) = 1 -> is_uint x -> is_uint y ->
  wrap (x * c) = wrap (y * c) -> x = y.
Proof.
  intros Hinv Hx Hy Heq.
  assert (Hcancel : forall z, is_uint z -> wrap (wrap (z * c) * cinv) = z).
  { intros z Hz. unfold wrap in *.
    rewrite Z.mul_mod_idemp_l by (unfold UINT_WIDTH; lia).
    rewrite <- Z.mul_assoc, <- Z.mul_mod_idemp_r by (unfold UINT_WIDTH; lia).
    rewrite Hinv, Z.mul_1_r. apply Z.mod_small. exact Hz. }
  rewrite <- (Hcancel x Hx), <- (Hcancel y Hy), Heq. reflexivity.
Qed.

(** The second line of the hash is a multiplication by 9. *)
Lemma add_shiftl3 (a : Z) : wrap (a + wrap (Z.shiftl a 3)) = wrap (a * 9).
Proof.
  unfold wrap. rewrite Z.shiftl_mul_pow2 by lia.
  rewrite Zplus_mod_idemp_r. f_equal. lia.
Qed.

Lemma lxor_const_cancel (c u v : Z) : Z.lxor u c = Z.lxor v c -> u = v.
Proof.
  intros H.
  transitivity (Z.lxor (Z.lxor u c) c).
  - rewrite Z.lxor_assoc, Z.lxor_nilpotent, Z.lxor_0_r. reflexivity.
  - rewrite H, Z.lxor_assoc, Z.lxor_nilpotent, Z.lxor_0_r. reflexivity.
Qed.

Lemma hash_first_line (a : Z) :
  Z.lxor (Z.lxor a 61) (Z.shiftr a 16) =
  Z.lxor (Z.lxor a (Z.shiftr a 16)) 61.
Proof.
  rewrite !Z.lxor_assoc. f_equal. apply Z.lxor_comm.
Qed.

Lemma uint_61 : is_uint 61.
Proof. unfold is_uint, UINT_WIDTH. lia. Qed.

(** Injectivity of the built-in hash, shared by the statements below. *)
Lemma hash_uint32_inj (x y : Z) :
  is_uint x -> is_uint y ->
  rendezvous_hasher_hash_uint32 x = rendezvous_hasher_hash_uint32 y ->
  x = y.
Proof.
  intros Hx Hy. unfold rendezvous_hasher_hash_uint32. cbv zeta.
  rewrite !add_shiftl3, !hash_first_line.
  set (x1 := Z.lxor (Z.lxor x (Z.shiftr x 16)) 61).
  set (y1 := Z.lxor (Z.lxor y (Z.shiftr y 16)) 61).
  set (x2 := wrap (x1 * 9)). set (y2 := wrap (y1 * 9)).
  set (x3 := Z.lxor x2 (Z.shiftr x2 4)).
  set (y3 := Z.lxor y2 (Z.shiftr y2 4)).
  set (x4 := wrap (x3 * 668265261)). set (y4 := wrap (y3 * 668265261)).
  intros H5.
  assert (Hx1 : is_uint x1).
  { apply lxor_is_uint; [apply lxor_is_uint|apply uint_61];
      [exact Hx | apply shiftr_is_uint; [exact Hx | lia]]. }
  assert (Hy1 : is_uint y1).
  { apply lxor_is_uint; [apply lxor_is_uint|apply uint_61];
      [exact Hy | apply shiftr_is_uint; [exact Hy | lia]]. }
  assert (Hx2 : is_uint x2) by apply wrap_is_uint.
  assert (Hy2 : is_uint y2) by apply wrap_is_uint.
  assert (Hx3 : is_uint x3).
  { apply lxor_is_uint; [|apply shiftr_is_uint]; try exact Hx2. lia. }
  assert (Hy3 : is_uint y3).
  { apply lxor_is_uint; [|apply shiftr_is_uint]; try exact Hy2. lia. }
  assert (H4 : x4 = y4).
  { apply (xorshift_injective 15); try apply wrap_is_uint; [lia | exact H5]. }
  assert (H3 : x3 = y3).
  { apply (mul_unit_injective 668265261 4218002597);
      [vm_compute; reflexivity | assumption | assumption | exact H4]. }
  assert (H2 : x2 = y2).
  { apply (xorshift_injective 4); auto. lia. }
  assert (H1 : x1 = y1).
  { apply (mul_unit_injective 9 954437177);
      [vm_compute; reflexivity | assumption | assumption | exact H2]. }
  apply (xorshift_injective 16); auto; [lia|].
  apply (lxor_const_cancel 61). exact H1.
Qed.

(** ** Scores and the shape of the selection *)

Section SelectionFacts.

Variable hash : RendezvousHasherId -> RendezvousHasherHash.
Variable item_id : RendezvousHasherId.

Local Abbreviation loop := (get_node_for_loop hash item_id).
Local Abbreviation sc := (score hash item_id).

(** A positive score somewhere in the chain forces the outcome to be a
    cell of the chain with the largest score. *)
Lemma selected_is_max (l : RendezvousHasherNodeList) (w : RendezvousHasherId) :
  In w l -> 0 < sc w ->
  In (selected hash l item_id) l /\
  0 < sc (selected hash l item_id) /\
  (forall m, In m l -> sc m <= sc (selected hash l item_id)).
Proof.
  intros Hw Hpos. unfold selected.
  pose proof (loop_max_bound hash item_id l 0 0 w Hw) as Hb.
  destruct (loop_result hash item_id l 0 0) as [H0|(Hin & Hsc & Hlt)].
  - rewrite H0 in Hb. simpl in Hb. lia.
  - split; [exact Hin|]. split; [lia|].
    intros m Hm. rewrite Hsc. apply loop_max_bound. exact Hm.
Qed.

(** No positive score anywhere: the outcome is the initial 0. *)
Lemma selected_none_positive (l : RendezvousHasherNodeList) :
  (forall m, In m l -> sc m <= 0) -> selected hash l item_id = 0.
Proof.
  intros Hall. unfold selected.
  rewrite loop_no_update by exact Hall. reflexivity.
Qed.

(** The first cell holding the strictly positive largest score wins. *)
Lemma selected_first_max (l1 l2 : RendezvousHasherNodeList)
    (n : RendezvousHasherId) :
  0 < sc n ->
  (forall m, In m l1 -> sc m < sc n) ->
  (forall m, In m l2 -> sc m <= sc n) ->
  selected hash (l1 ++ n :: l2) item_id = n.
Proof.
  intros Hpos H1 H2. unfold selected.
  rewrite loop_app, loop_cons.
  assert (Hm1 : fst (loop l1 0 0) < sc n).
  { destruct (loop_result hash item_id l1 0 0) as [H0|(Hin & Hsc & _)].
    - rewrite H0. simpl. exact Hpos.
    - rewrite <- Hsc. apply H1. exact Hin. }
  destruct (Z.gtb_spec (sc n) (fst (loop l1 0 0))) as [_|Hle]; [|lia].
  rewrite loop_no_update by exact H2. reflexivity.
Qed.

(** Two chains with the same members, none of whose distinct members
    tie, give the same outcome. *)
Lemma selected_same_members (l l' : RendezvousHasherNodeList) :
  (forall x, In x l <-> In x l') ->
  (forall x y, In x l -> In y l -> sc x = sc y -> x = y) ->
  selected hash l item_id = selected hash l' item_id.
Proof.
  intros Hmem Hinj.
  destruct (Exists_dec (fun m => 0 < sc m) l
              (fun m => Z_lt_dec 0 (sc m))) as [Hex|Hnone].
  - apply Exists_exists in Hex. destruct Hex as (w & Hw & Hpos).
    destruct (selected_is_max l w Hw Hpos) as (Hin & _ & Hmax).
    destruct (selected_is_max l' w (proj1 (Hmem w) Hw) Hpos)
      as (Hin' & _ & Hmax').
    apply Hinj; [exact Hin | apply Hmem; exact Hin' |].
    apply Z.le_antisymm.
    + apply Hmax'. apply Hmem. exact Hin.
    + apply Hmax. apply Hmem. exact Hin'.
  - assert (Hall : forall m, In m l -> sc m <= 0).
    { intros m Hm. destruct (Z_lt_dec 0 (sc m)) as [Hp|Hn]; [|lia].
      exfalso. apply Hnone. apply Exists_exists. exists m. auto. }
    rewrite (selected_none_positive l Hall).
    rewrite selected_none_positive; [reflexivity|].
    intros m Hm. apply Hall. apply Hmem. exact Hm.
Qed.

End SelectionFacts.

(** ** Facts about [remove_first] *)

Lemma remove_first_incl (id x : RendezvousHasherId)
    (l : RendezvousHasherNodeList) :
  In x (remove_first id l) -> In x l.
Proof.
  induction l as [|y l IH]; simpl; [auto|].
  destruct (y =? id).
  - intros H. right. exact H.
  - intros [H|H]; [left; exact H | right; apply IH; exact H].
Qed.

Lemma remove_first_length (id : RendezvousHasherId)
    (l : RendezvousHasherNodeList) :
  (length (remove_first id l) <= length l)%nat.
Proof.
  induction l as [|y l IH]; simpl; [lia|].
  destruct (y =? id); simpl; lia.
Qed.

Lemma remove_first_count (id y : RendezvousHasherId)
    (l : RendezvousHasherNodeList) :
  count_occ Z.eq_dec (remove_first id l) y =
  if Z.eq_dec y id then Nat.pred (count_occ Z.eq_dec l y)
  else count_occ Z.eq_dec l y.
Proof.
  induction l as [|x l IH]; simpl.
  - destruct (Z.eq_dec y id); reflexivity.
  - destruct (Z.eqb_spec x id) as [->|Hne].
    + destruct (Z.eq_dec id y) as [Heq|Hneq];
        destruct (Z.eq_dec y id) as [Heq'|Hneq'];
        try congruence; reflexivity.
    + simpl. rewrite IH.
      destruct (Z.eq_dec x y) as [Heq|Hneq];
        destruct (Z.eq_dec y id) as [Heq'|Hneq'];
        try congruence; reflexivity.
Qed.

Lemma remove_first_NoDup_notin (id : RendezvousHasherId)
    (l : RendezvousHasherNodeList) :
  NoDup l -> ~ In id (remove_first id l).
Proof.
  induction l as [|x l IH]; intros Hnd; simpl.
  - intros [].
  - inversion Hnd as [|x' l' Hx Hl]; subst.
    destruct (Z.eqb_spec x id) as [->|Hne].
    + exact Hx.
    + intros [Heq|Hin]; [congruence | exact (IH Hl Hin)].
Qed.

(** The registry after a removal, case by case on the head cell. *)
Lemma remove_node_cases (r : RendezvousHasher) (id : RendezvousHasherId) :
  rendezvous_remove_node (Some r) id =
    (RENDEZVOUS_HASHER_OK, Some (mkRendezvousHasher [])) \/
  rendezvous_remove_node (Some r) id =
    (RENDEZVOUS_HASHER_OK,
     Some (mkRendezvousHasher (remove_first id (nodes r)))).
Proof.
  destruct (nodes r) as [|x t] eqn:Hn.
  - right. unfold rendezvous_remove_node. rewrite Hn.
    destruct r as [l]. simpl in Hn. subst l. reflexivity.
  - destruct (Z.eq_dec x id) as [->|Hne].
    + left. apply (remove_node_head r id t Hn).
    + right. rewrite <- Hn. apply (remove_node_not_head r id x t Hn Hne).
Qed.

(** ** Facts about wrapped sums and the harness loop *)

Lemma wrap_add_cancel (k x y : Z) :
  is_uint x -> is_uint y -> wrap (x + k) = wrap (y + k) -> x = y.
Proof.
  intros Hx Hy Heq.
  assert (Hback : forall z, is_uint z -> wrap (wrap (z + k) - k) = z).
  { intros z Hz. unfold wrap.
    rewrite Zminus_mod_idemp_l.
    replace (z + k - k) with z by lia.
    apply Z.mod_small. exact Hz. }
  rewrite <- (Hback x Hx), <- (Hback y Hy), Heq. reflexivity.
Qed.

Lemma print_and_check_loop_agrees hash k (l : RendezvousHasherNodeList) :
  forall max_id max_hash,
    print_and_check_loop hash k l max_id max_hash =
    (snd (get_node_for_loop hash k l max_hash max_id),
     fst (get_node_for_loop hash k l max_hash max_id)).
Proof.
  induction l as [|n l IH]; intros max_id max_hash; simpl.
  - reflexivity.
  - destruct (hash (wrap (n + k)) >? max_hash); apply IH.
Qed.

Lemma build_fold (ids : list RendezvousHasherId) :
  forall l,
    fold_left (fun rh id => snd (rendezvous_add_node rh id)) ids
      (Some (mkRendezvousHasher l)) =
    Some (mkRendezvousHasher (rev ids ++ l)).
Proof.
  induction ids as [|id ids IH]; intros l; simpl.
  - reflexivity.
  - rewrite IH, <- app_assoc. reflexivity.
Qed.

(** * Further verified properties *)

(** X1: a successful query stores the zero identifier or the identifier
    of a registered node, never anything else. *)
Theorem X1_stored_node_is_zero_or_registered :
  forall hash (r : RendezvousHasher) (k out : RendezvousHasherId),
    exists n,
      rendezvous_get_node_for hash (Some r) k (Some out) =
        (RENDEZVOUS_HASHER_OK, Some r, Some n) /\
      (n = 0 \/ In n (nodes r)).
Proof.
  intros hash r k out. rewrite get_node_for_ok.
  eexists. split; [reflexivity|]. apply selected_zero_or_in.
Qed.

(** X2: the first cell in scan order that holds a strictly positive
    score, above every cell before it and not below any cell after it,
    is the node the query stores: ties go to the cell nearest the head,
    which is the most recently added one. *)
Theorem X2_first_maximum_wins :
  forall hash (r : RendezvousHasher) (k out n : RendezvousHasherId)
         (l1 l2 : RendezvousHasherNodeList),
    nodes r = l1 ++ n :: l2 ->
    0 < score hash k n ->
    (forall m, In m l1 -> score hash k m < score hash k n) ->
    (forall m, In m l2 -> score hash k m <= score hash k n) ->
    rendezvous_get_node_for hash (Some r) k (Some out) =
      (RENDEZVOUS_HASHER_OK, Some r, Some n).
Proof.
  intros hash r k out n l1 l2 Hn Hpos H1 H2.
  rewrite get_node_for_ok, Hn.
  rewrite (selected_first_max hash k l1 l2 n Hpos H1 H2). reflexivity.
Qed.

Lemma X2_first_maximum_wins_witness :
  rendezvous_get_node_for rendezvous_hasher_hash_uint32
    (Some (mkRendezvousHasher [7777; 420; 6969])) 456 (Some 1) =
  (RENDEZVOUS_HASHER_OK, Some (mkRendezvousHasher [7777; 420; 6969]),
   Some 420).
Proof.
  apply (X2_first_maximum_wins rendezvous_hasher_hash_uint32
           (mkRendezvousHasher [7777; 420; 6969]) 456 1 420 [7777] [6969]).
  - reflexivity.
  - vm_compute. reflexivity.
  - intros m [<-|[]]. vm_compute. reflexivity.
  - intros m [<-|[]]. vm_compute. discriminate.
Defined.

(** X3: as soon as one registered node has a strictly positive score
    for the key, the query stores a registered node whose score is
    strictly positive and at least that of every registered node. *)
Theorem X3_stored_node_has_maximal_score :
  forall hash (r : RendezvousHasher) (k out w : RendezvousHasherId),
    In w (nodes r) -> 0 < score hash k w ->
    exists n,
      rendezvous_get_node_for hash (Some r) k (Some out) =
        (RENDEZVOUS_HASHER_OK, Some r, Some n) /\
      In n (nodes r) /\ 0 < score hash k n /\
      (forall m, In m (nodes r) -> score hash k m <= score hash k n).
Proof.
  intros hash r k out w Hw Hpos. rewrite get_node_for_ok.
  eexists. split; [reflexivity|].
  apply (selected_is_max hash k (nodes r) w Hw Hpos).
Qed.

Lemma X3_stored_node_has_maximal_score_witness :
  exists n,
    rendezvous_get_node_for rendezvous_hasher_hash_uint32
      (Some (mkRendezvousHasher [7777; 420; 6969])) 123 (Some 1) =
      (RENDEZVOUS_HASHER_OK, Some (mkRendezvousHasher [7777; 420; 6969]),
       Some n) /\
    In n [7777; 420; 6969] /\
    0 < score rendezvous_hasher_hash_uint32 123 n /\
    (forall m, In m [7777; 420; 6969] ->
               score rendezvous_hasher_hash_uint32 123 m <=
               score rendezvous_hasher_hash_uint32 123 n).
Proof.
  apply (X3_stored_node_has_maximal_score rendezvous_hasher_hash_uint32
           (mkRendezvousHasher [7777; 420; 6969]) 123 1 6969).
  - simpl. auto.
  - vm_compute. reflexivity.
Defined.

(** X4: two registries with the same set of identifiers, in whatever
    order and multiplicity, in which no two distinct identifiers have
    the same score for the key, give the same node for that key. *)
Theorem X4_selection_depends_on_members_only :
  forall hash (r r' : RendezvousHasher) (k out out' : RendezvousHasherId),
    (forall x, In x (nodes r) <-> In x (nodes r')) ->
    (forall x y, In x (nodes r) -> In y (nodes r) ->
                 score hash k x = score hash k y -> x = y) ->
    cell_of (rendezvous_get_node_for hash (Some r) k (Some out)) =
    cell_of (rendezvous_get_node_for hash (Some r') k (Some out')).
Proof.
  intros hash r r' k out out' Hmem Hinj.
  rewrite !get_node_for_ok. unfold cell_of. cbn [snd]. f_equal.
  apply selected_same_members; assumption.
Qed.

Lemma X4_selection_depends_on_members_only_witness :
  cell_of (rendezvous_get_node_for rendezvous_hasher_hash_uint32
             (Some (mkRendezvousHasher [7777; 420])) 123 (Some 1)) =
  cell_of (rendezvous_get_node_for rendezvous_hasher_hash_uint32
             (Some (mkRendezvousHasher [420; 7777; 420])) 123 (Some 2)).
Proof.
  apply (X4_selection_depends_on_members_only rendezvous_hasher_hash_uint32
           (mkRendezvousHasher [7777; 420])
           (mkRendezvousHasher [420; 7777; 420]) 123 1 2).
  - intros x. simpl. tauto.
  - intros x y [<-|[<-|[]]] [<-|[<-|[]]]; vm_compute; congruence.
Defined.

(** X5: after [rendezvous_add_node], every key is either on the node
    just added or on the node it was on before. *)
Theorem X5_added_node_only_captures :
  forall hash (r : RendezvousHasher) (d k out : RendezvousHasherId),
    let before := rendezvous_get_node_for hash (Some r) k (Some out) in
    let after :=
      rendezvous_get_node_for hash
        (snd (rendezvous_add_node (Some r) d)) k (Some out) in
    cell_of after = Some d \/ cell_of after = cell_of before.
Proof.
  intros hash r d k out. apply add_node_only_captures.
Qed.

(** X6: when the head cell does not hold the identifier being removed,
    a key that was not on the removed node is on the same node after
    [rendezvous_remove_node] as before. *)
Theorem X6_inner_removal_keeps_other_keys :
  forall hash (r : RendezvousHasher) (c x k out : RendezvousHasherId)
         (t : RendezvousHasherNodeList),
    nodes r = x :: t -> x <> c ->
    cell_of (rendezvous_get_node_for hash (Some r) k (Some out)) <> Some c ->
    cell_of (rendezvous_get_node_for hash
               (snd (rendezvous_remove_node (Some r) c)) k (Some out)) =
    cell_of (rendezvous_get_node_for hash (Some r) k (Some out)).
Proof.
  intros hash r c x k out t Hn Hne Hsel.
  apply (remove_node_inner_keeps_others hash r c x k out t Hn Hne Hsel).
Qed.

Lemma X6_inner_removal_keeps_other_keys_witness :
  cell_of (rendezvous_get_node_for rendezvous_hasher_hash_uint32
             (snd (rendezvous_remove_node
                     (Some (mkRendezvousHasher [7777; 420; 6969])) 420))
             123 (Some 1)) =
  cell_of (rendezvous_get_node_for rendezvous_hasher_hash_uint32
             (Some (mkRendezvousHasher [7777; 420; 6969])) 123 (Some 1)).
Proof.
  apply (X6_inner_removal_keeps_other_keys rendezvous_hasher_hash_uint32
           (mkRendezvousHasher [7777; 420; 6969]) 420 7777 123 1
           [420; 6969]).
  - reflexivity.
  - discriminate.
  - vm_compute. discriminate.
Defined.

(** X7: when the head cell does not hold [id], [rendezvous_remove_node]
    returns success and unlinks exactly the first cell holding [id]:
    the remaining cells keep their order, [id] occurs once less (or
    still not at all) and every other identifier occurs as often as
    before. *)
Theorem X7_inner_removal_unlinks_first_match :
  forall (r : RendezvousHasher) (id x : RendezvousHasherId)
         (t : RendezvousHasherNodeList),
    nodes r = x :: t -> x <> id ->
    exists r',
      rendezvous_remove_node (Some r) id = (RENDEZVOUS_HASHER_OK, Some r') /\
      nodes r' = x :: remove_first id t /\
      count_occ Z.eq_dec (nodes r') id =
        Nat.pred (count_occ Z.eq_dec (nodes r) id) /\
      (forall y, y <> id ->
                 count_occ Z.eq_dec (nodes r') y =
                 count_occ Z.eq_dec (nodes r) y).
Proof.
  intros r id x t Hn Hne.
  exists (mkRendezvousHasher (remove_first id (nodes r))).
  split; [apply (remove_node_not_head r id x t Hn Hne)|].
  cbn [nodes]. split.
  - rewrite Hn. simpl.
    destruct (Z.eqb_spec x id); [contradiction | reflexivity].
  - split.
    + rewrite remove_first_count.
      destruct (Z.eq_dec id id); [reflexivity | contradiction].
    + intros y Hy. rewrite remove_first_count.
      destruct (Z.eq_dec y id); [contradiction | reflexivity].
Qed.

Lemma X7_inner_removal_unlinks_first_match_witness :
  exists r',
    rendezvous_remove_node
      (Some (mkRendezvousHasher [7777; 420; 6969; 420])) 420 =
      (RENDEZVOUS_HASHER_OK, Some r') /\
    nodes r' = 7777 :: remove_first 420 [420; 6969; 420] /\
    count_occ Z.eq_dec (nodes r') 420 =
      Nat.pred (count_occ Z.eq_dec [7777; 420; 6969; 420] 420) /\
    (forall y, y <> 420 ->
               count_occ Z.eq_dec (nodes r') y =
               count_occ Z.eq_dec [7777; 420; 6969; 420] y).
Proof.
  apply (X7_inner_removal_unlinks_first_match
           (mkRendezvousHasher [7777; 420; 6969; 420]) 420 7777
           [420; 6969; 420]).
  - reflexivity.
  - discriminate.
Defined.

(** X8: on a valid handle [rendezvous_remove_node] always returns
    success, and the registry it leaves holds no identifier that was
    not there before and no more cells than before. *)
Theorem X8_removal_never_adds :
  forall (r : RendezvousHasher) (id : RendezvousHasherId),
    exists r',
      rendezvous_remove_node (Some r) id = (RENDEZVOUS_HASHER_OK, Some r') /\
      (forall x, In x (nodes r') -> In x (nodes r)) /\
      (length (nodes r') <= length (nodes r))%nat.
Proof.
  intros r id.
  destruct (remove_node_cases r id) as [H|H]; rewrite H;
    eexists; (split; [reflexivity|]); cbn [nodes].
  - split; [intros x [] | simpl; lia].
  - split; [intros x; apply remove_first_incl | apply remove_first_length].
Qed.

(** X9: removing the identifier that was added last leaves the registry
    with no cell at all, whatever it held before the addition. *)
Theorem X9_removing_last_added_empties_registry :
  forall (r : RendezvousHasher) (id : RendezvousHasherId),
    rendezvous_remove_node (snd (rendezvous_add_node (Some r) id)) id =
    (RENDEZVOUS_HASHER_OK, Some (mkRendezvousHasher [])).
Proof.
  intros r id. unfold rendezvous_add_node. cbn [snd].
  apply (remove_node_head _ id (nodes r)). reflexivity.
Qed.

(** X10: in a registry without duplicate identifiers, once a non-zero
    [id] has been passed to [rendezvous_remove_node] no query stores
    [id], for any hash and key. *)
Theorem X10_removed_node_is_never_stored :
  forall hash (r : RendezvousHasher) (id k out : RendezvousHasherId),
    NoDup (nodes r) -> id <> 0 ->
    cell_of (rendezvous_get_node_for hash
               (snd (rendezvous_remove_node (Some r) id)) k (Some out))
    <> Some id.
Proof.
  intros hash r id k out Hnd Hid.
  destruct (remove_node_cases r id) as [H|H]; rewrite H; cbn [snd];
    rewrite get_node_for_ok; unfold cell_of; cbn [snd nodes];
    intros Heq; injection Heq as Heq.
  - unfold selected in Heq. simpl in Heq. congruence.
  - destruct (selected_zero_or_in hash k (remove_first id (nodes r)))
      as [H0|Hin].
    + congruence.
    + rewrite Heq in Hin. exact (remove_first_NoDup_notin id _ Hnd Hin).
Qed.

Lemma X10_removed_node_is_never_stored_witness :
  cell_of (rendezvous_get_node_for rendezvous_hasher_hash_uint32
             (snd (rendezvous_remove_node
                     (Some (mkRendezvousHasher [7777; 420; 6969])) 420))
             456 (Some 1))
  <> Some 420.
Proof.
  apply (X10_removed_node_is_never_stored rendezvous_hasher_hash_uint32
           (mkRendezvousHasher [7777; 420; 6969]) 420 456 1).
  - cbn [nodes]. repeat constructor; simpl; intros H;
      repeat (destruct H as [H|H]; [discriminate H|]); exact H.
  - discriminate.
Defined.

(** X11: [rendezvous_init] followed by one [rendezvous_add_node] per
    identifier leaves the cells in the reverse of the order of the
    calls, whatever the structure held before. *)
Theorem X11_build_reverses_insertion_order :
  forall (ids : list RendezvousHasherId) (uninit : RendezvousHasher),
    build ids (Some uninit) = Some (mkRendezvousHasher (rev ids)).
Proof.
  intros ids uninit. unfold build, rendezvous_init. cbn [snd].
  rewrite build_fold, app_nil_r. reflexivity.
Qed.

Lemma hash_uint32_is_uint (a : Z) :
  is_uint (rendezvous_hasher_hash_uint32 a).
Proof.
  unfold rendezvous_hasher_hash_uint32. cbv zeta.
  apply lxor_is_uint; [|apply shiftr_is_uint; [|lia]]; apply wrap_is_uint.
Qed.

(** X12: the built-in hash returns a value that fits an
    [unsigned int], for every argument. *)
Theorem X12_hash_uint32_range :
  forall a : Z,
    (0 <= rendezvous_hasher_hash_uint32 a < 2 ^ 32) /\
    (wrap (rendezvous_hasher_hash_uint32 a) = rendezvous_hasher_hash_uint32 a).
Proof.
  intros a. pose proof (hash_uint32_is_uint a) as H.
  split; [exact H | apply wrap_small; exact H].
Qed.

(** X13: the built-in hash sends distinct [unsigned int] values to
    distinct hashes. *)
Theorem X13_hash_uint32_injective :
  forall x y : Z,
    is_uint x -> is_uint y -> x <> y ->
    rendezvous_hasher_hash_uint32 x <> rendezvous_hasher_hash_uint32 y.
Proof.
  intros x y Hx Hy Hne Heq. apply Hne.
  apply (hash_uint32_inj x y Hx Hy Heq).
Qed.

Lemma X13_hash_uint32_injective_witness :
  rendezvous_hasher_hash_uint32 7900 <> rendezvous_hasher_hash_uint32 543.
Proof.
  apply (X13_hash_uint32_injective 7900 543).
  - unfold is_uint, UINT_WIDTH. lia.
  - unfold is_uint, UINT_WIDTH. lia.
  - discriminate.
Defined.

(** X14: with the built-in hash, the score of node [n] for key [k] is 0
    exactly when [n + k] is 61 modulo [2^32]; so for each key there is
    exactly one identifier value that the loop always passes over. *)
Theorem X14_zero_score_only_at_61 :
  forall n k : RendezvousHasherId,
    score rendezvous_hasher_hash_uint32 k n = 0 <-> wrap (n + k) = 61.
Proof.
  intros n k. unfold score. split.
  - intros H0. apply hash_uint32_inj.
    + apply wrap_is_uint.
    + apply uint_61.
    + rewrite H0. vm_compute. reflexivity.
  - intros ->. vm_compute. reflexivity.
Qed.

(** With the built-in hash, distinct [unsigned int] identifiers never
    tie on a key. *)
Lemma builtin_scores_distinct (k x y : RendezvousHasherId) :
  is_uint x -> is_uint y ->
  score rendezvous_hasher_hash_uint32 k x =
  score rendezvous_hasher_hash_uint32 k y ->
  x = y.
Proof.
  intros Hx Hy Heq. unfold score in Heq.
  apply (wrap_add_cancel k x y Hx Hy).
  apply hash_uint32_inj; [apply wrap_is_uint | apply wrap_is_uint | exact Heq].
Qed.

(** X15: with the built-in hash and [unsigned int] identifiers, the
    node stored for a key depends only on which identifiers are
    registered, not on the order of the cells nor on how often an
    identifier was added. *)
Theorem X15_builtin_selection_ignores_order :
  forall (r r' : RendezvousHasher) (k out out' : RendezvousHasherId),
    (forall x, In x (nodes r) -> is_uint x) ->
    (forall x, In x (nodes r) <-> In x (nodes r')) ->
    cell_of (rendezvous_get_node_for rendezvous_hasher_hash_uint32
               (Some r) k (Some out)) =
    cell_of (rendezvous_get_node_for rendezvous_hasher_hash_uint32
               (Some r') k (Some out')).
Proof.
  intros r r' k out out' Huint Hmem.
  rewrite !get_node_for_ok. unfold cell_of. cbn [snd]. f_equal.
  apply selected_same_members; [exact Hmem|].
  intros x y Hx Hy. apply builtin_scores_distinct; auto.
Qed.

Lemma X15_builtin_selection_ignores_order_witness :
  cell_of (rendezvous_get_node_for rendezvous_hasher_hash_uint32
             (Some (mkRendezvousHasher [7777; 420; 6969])) 456 (Some 1)) =
  cell_of (rendezvous_get_node_for rendezvous_hasher_hash_uint32
             (Some (mkRendezvousHasher [6969; 7777; 420])) 456 (Some 2)).
Proof.
  apply (X15_builtin_selection_ignores_order
           (mkRendezvousHasher [7777; 420; 6969])
           (mkRendezvousHasher [6969; 7777; 420]) 456 1 2).
  - intros x [<-|[<-|[<-|[]]]]; unfold is_uint, UINT_WIDTH; lia.
  - intros x. simpl. tauto.
Defined.

(** X16: with the built-in hash and [unsigned int] identifiers, adding
    an identifier that is already registered changes the node of no
    key. *)
Theorem X16_builtin_duplicate_add_changes_nothing :
  forall (r : RendezvousHasher) (d k out : RendezvousHasherId),
    (forall x, In x (nodes r) -> is_uint x) ->
    In d (nodes r) ->
    cell_of (rendezvous_get_node_for rendezvous_hasher_hash_uint32
               (snd (rendezvous_add_node (Some r) d)) k (Some out)) =
    cell_of (rendezvous_get_node_for rendezvous_hasher_hash_uint32
               (Some r) k (Some out)).
Proof.
  intros r d k out Huint Hd.
  unfold rendezvous_add_node. cbn [snd].
  rewrite !get_node_for_ok. unfold cell_of. cbn [snd nodes]. f_equal.
  symmetry. apply selected_same_members.
  - intros x. simpl. split; [auto|]. intros [<-|Hx]; assumption.
  - intros x y Hx Hy. apply builtin_scores_distinct; auto.
Qed.

Lemma X16_builtin_duplicate_add_changes_nothing_witness :
  cell_of (rendezvous_get_node_for rendezvous_hasher_hash_uint32
             (snd (rendezvous_add_node
                     (Some (mkRendezvousHasher [7777; 420; 6969])) 6969))
             123 (Some 1)) =
  cell_of (rendezvous_get_node_for rendezvous_hasher_hash_uint32
             (Some (mkRendezvousHasher [7777; 420; 6969])) 123 (Some 1)).
Proof.
  apply (X16_builtin_duplicate_add_changes_nothing
           (mkRendezvousHasher [7777; 420; 6969]) 6969 123 1).
  - intros x [<-|[<-|[<-|[]]]]; unfold is_uint, UINT_WIDTH; lia.
  - simpl. auto.
Defined.

(** X17: with the built-in hash, a registry holding two distinct
    [unsigned int] identifiers gives every key a registered node, one
    with a strictly positive score that no registered node exceeds;
    the initial 0 is then stored only if 0 is such a node. *)
Theorem X17_builtin_two_nodes_always_select :
  forall (r : RendezvousHasher) (k out n1 n2 : RendezvousHasherId),
    In n1 (nodes r) -> In n2 (nodes r) ->
    is_uint n1 -> is_uint n2 -> n1 <> n2 ->
    exists n,
      rendezvous_get_node_for rendezvous_hasher_hash_uint32
        (Some r) k (Some out) = (RENDEZVOUS_HASHER_OK, Some r, Some n) /\
      In n (nodes r) /\
      0 < score rendezvous_hasher_hash_uint32 k n /\
      (forall m, In m (nodes r) ->
                 score rendezvous_hasher_hash_uint32 k m <=
                 score rendezvous_hasher_hash_uint32 k n).
Proof.
  intros r k out n1 n2 H1 H2 Hu1 Hu2 Hne.
  assert (Hpos : exists w, In w (nodes r) /\
                           0 < score rendezvous_hasher_hash_uint32 k w).
  { assert (Hnn : forall w, 0 <= score rendezvous_hasher_hash_uint32 k w).
    { intros w. unfold score.
      destruct (hash_uint32_is_uint (wrap (w + k))) as [Hlo _].
      exact Hlo. }
    destruct (Z.eq_dec (score rendezvous_hasher_hash_uint32 k n1) 0)
      as [Hz1|Hnz1].
    - exists n2. split; [exact H2|].
      destruct (Z.eq_dec (score rendezvous_hasher_hash_uint32 k n2) 0)
        as [Hz2|Hnz2].
      + exfalso. apply Hne.
        apply (builtin_scores_distinct k n1 n2 Hu1 Hu2). congruence.
      + specialize (Hnn n2). lia.
    - exists n1. split; [exact H1|]. specialize (Hnn n1). lia. }
  destruct Hpos as (w & Hw & Hwpos).
  rewrite get_node_for_ok. eexists. split; [reflexivity|].
  apply (selected_is_max rendezvous_hasher_hash_uint32 k (nodes r) w Hw Hwpos).
Qed.

Lemma X17_builtin_two_nodes_always_select_witness :
  exists n,
    rendezvous_get_node_for rendezvous_hasher_hash_uint32
      (Some (mkRendezvousHasher [61; 62])) 0 (Some 1) =
      (RENDEZVOUS_HASHER_OK, Some (mkRendezvousHasher [61; 62]), Some n) /\
    In n [61; 62] /\
    0 < score rendezvous_hasher_hash_uint32 0 n /\
    (forall m, In m [61; 62] ->
               score rendezvous_hasher_hash_uint32 0 m <=
               score rendezvous_hasher_hash_uint32 0 n).
Proof.
  apply (X17_builtin_two_nodes_always_select
           (mkRendezvousHasher [61; 62]) 0 1 61 62).
  - simpl. auto.
  - simpl. auto.
  - unfold is_uint, UINT_WIDTH. lia.
  - unfold is_uint, UINT_WIDTH. lia.
  - discriminate.
Defined.

(** X18: [print_and_check] of [src/test.c] returns, both of its
    assertions holding, for every valid registry, key and hash; on a
    null handle its first assertion aborts. *)
Theorem X18_print_and_check_never_aborts :
  forall hash (r : RendezvousHasher) (k uninit : RendezvousHasherId),
    print_and_check hash (Some r) k uninit = true /\
    print_and_check hash None k uninit = false.
Proof.
  intros hash r k uninit. split; [|reflexivity].
  unfold print_and_check. rewrite get_node_for_ok.
  unfold status_of, cell_of. cbn [fst snd].
  rewrite print_and_check_loop_agrees. unfold selected.
  apply Z.eqb_refl.
Qed.

(** X19: an identifier added before the most recent addition can be
    removed again without trace: adding [a], adding a different [b] and
    removing [a] leaves the registry that adding [b] alone would have
    left. *)
Theorem X19_remove_undoes_earlier_add :
  forall (r : RendezvousHasher) (a b : RendezvousHasherId),
    a <> b ->
    rendezvous_remove_node
      (snd (rendezvous_add_node (snd (rendezvous_add_node (Some r) a)) b)) a =
    rendezvous_add_node (Some r) b.
Proof.
  intros r a b Hne. unfold rendezvous_add_node. cbn [snd nodes].
  rewrite (remove_node_not_head _ a b (a :: nodes r));
    [|reflexivity|congruence].
  cbn [nodes remove_first].
  destruct (Z.eqb_spec b a) as [Heq|_]; [congruence|].
  rewrite Z.eqb_refl. reflexivity.
Qed.

Lemma X19_remove_undoes_earlier_add_witness :
  rendezvous_remove_node
    (snd (rendezvous_add_node
            (snd (rendezvous_add_node
                    (Some (mkRendezvousHasher [6969])) 420)) 7777)) 420 =
  rendezvous_add_node (Some (mkRendezvousHasher [6969])) 7777.
Proof.
  apply (X19_remove_undoes_earlier_add (mkRendezvousHasher [6969]) 420 7777).
  discriminate.
Defined.
